(** * The asynchronous allocation cache of [src/malloc.cpp]

    A shallow embedding of the allocator: size classification
    ([round_pow2], the rounding at the top of [jit_malloc]), the global
    cache [alloc_free], the table of live pointers [alloc_used], the
    per-stream release chains, and the operations [jit_malloc],
    [jit_free], [jit_free_flush], [jit_malloc_migrate],
    [jit_malloc_prefetch], [jit_malloc_trim] and [jit_malloc_shutdown].

    Conventions.
    - [size_t] values are integers in [0, 2^64); every arithmetic step
      that can leave the range is wrapped with [wrap].
    - A pointer is its address; [nullptr] is [0].
    - A [std::vector] is a list in index order: [push_back] appends at
      the end, [back] is the last element.
    - The hash maps ([tsl::robin_map]) are finite maps.
    - [ReleaseChain] nodes live in a heap [chains] indexed by address,
      because the reclaim callback keeps a pointer to a node that the
      stream also points to.
    - Driver calls and calls of the C library are recorded in [trace];
      [cuda_check] is taken to succeed.  [jit_trace] and debug-level
      logging are not recorded. *)

From Stdlib Require Import ZArith Lia.
From stdpp Require Import gmap list fin_maps functions.

#[local] Open Scope Z_scope.

(** ** Allocation flavours *)

(** The enumerators in the order of [alloc_type_name], which is indexed
    by [(int) type]. *)
Module AllocType.
Inductive t :=
| Host | HostAsync | HostPinned | Device | Managed | ManagedReadMostly.

#[global] Instance eq_dec : EqDecision t.
Proof. solve_decision. Defined.

Definition index (k : t) : nat :=
  match k with
  | Host => 0 | HostAsync => 1 | HostPinned => 2
  | Device => 3 | Managed => 4 | ManagedReadMostly => 5
  end%nat.

Definition of_index (n : nat) : t :=
  match n with
  | 0 => Host | 1 => HostAsync | 2 => HostPinned
  | 3 => Device | 4 => Managed | _ => ManagedReadMostly
  end%nat.

Lemma of_index_index k : of_index (index k) = k.
Proof. by destruct k. Qed.

#[global] Instance countable : Countable t :=
  inj_countable' index of_index of_index_index.

End AllocType.

(** [AllocInfo ai(type, device, size)]: the key of a cache bucket. *)
Record AllocInfo := mkAllocInfo {
  ai_type : AllocType.t;
  ai_device : Z;
  ai_size : Z
}.

#[global] Instance AllocInfo_eq_dec : EqDecision AllocInfo.
Proof. solve_decision. Defined.

Definition AllocInfo_to_tuple (ai : AllocInfo) : AllocType.t * Z * Z :=
  (ai_type ai, ai_device ai, ai_size ai).

Definition AllocInfo_of_tuple (p : AllocType.t * Z * Z) : AllocInfo :=
  let '(t, d, s) := p in mkAllocInfo t d s.

Lemma AllocInfo_of_to_tuple ai : AllocInfo_of_tuple (AllocInfo_to_tuple ai) = ai.
Proof. by destruct ai. Qed.

#[global] Instance AllocInfo_countable : Countable AllocInfo :=
  inj_countable' AllocInfo_to_tuple AllocInfo_of_tuple AllocInfo_of_to_tuple.

Definition set_ai_type (ty : AllocType.t) (ai : AllocInfo) : AllocInfo :=
  mkAllocInfo ty (ai_device ai) (ai_size ai).

Definition set_ai_device (d : Z) (ai : AllocInfo) : AllocInfo :=
  mkAllocInfo (ai_type ai) d (ai_size ai).

(** ** Size classification *)

(** Reduction of an integer to [size_t]. *)
Definition wrap (x : Z) : Z := x mod 2 ^ 64.

(** [size_t round_pow2(size_t x)]. *)
Definition round_pow2 (x : Z) : Z :=
  let x := wrap (x - 1) in
  let x := Z.lor x (Z.shiftr x 1) in
  let x := Z.lor x (Z.shiftr x 2) in
  let x := Z.lor x (Z.shiftr x 4) in
  let x := Z.lor x (Z.shiftr x 8) in
  let x := Z.lor x (Z.shiftr x 16) in
  let x := Z.lor x (Z.shiftr x 32) in
  wrap (x + 1).

(** Reduction of an integer to [uint32_t]. *)
Definition wrap32 (x : Z) : Z := x mod 2 ^ 32.

(** [uint32_t round_pow2(uint32_t x)]. *)
Definition round_pow2_32 (x : Z) : Z :=
  let x := wrap32 (x - 1) in
  let x := Z.lor x (Z.shiftr x 1) in
  let x := Z.lor x (Z.shiftr x 2) in
  let x := Z.lor x (Z.shiftr x 4) in
  let x := Z.lor x (Z.shiftr x 8) in
  let x := Z.lor x (Z.shiftr x 16) in
  wrap32 (x + 1).

(** The first rounding step of [jit_malloc]: up to a multiple of 64
    bytes, or of [jit_llvm_vector_width * sizeof(double)] for host memory
    when the vector width is at least 16. *)
Definition round_align (vector_width : Z) (type : AllocType.t) (size : Z) : Z :=
  if bool_decide (type ≠ AllocType.Host ∧ type ≠ AllocType.HostAsync)
     || (vector_width <? 16)
  then wrap (wrap (size + 63) / 64 * 64)
  else
    let packet_size := wrap (vector_width * 8) in
    wrap (wrap (wrap (size + packet_size) - 1) / packet_size * packet_size).






Definition is_pow2 (n : Z) : Prop := ∃ k, 0 <= k ∧ n = 2 ^ k.

(** Bit [i] of [y] is set exactly when one of the [m] bits of [x] from
    [i] upwards is: what [x |= x >> 1; x |= x >> 2; ...] builds up. *)
Definition smeared (m : Z) (x y : Z) : Prop :=
  ∀ i, 0 <= i →
    Z.testbit y i = true ↔ ∃ j, i <= j < i + m ∧ Z.testbit x j = true.

(** ** Allocator state *)

(** An entry of the device registry [state.devices]. *)
Record Device := mkDevice { id : Z }.

(** A node of a release chain. *)
Record ReleaseChain := mkReleaseChain {
  entries : gmap AllocInfo (list Z);
  next : option nat
}.

(** The host functions that the allocator enqueues on a stream: the
    reclaim callback of [jit_free_flush], whose argument is the node
    [chain_new], and the two callbacks of [jit_malloc_migrate], which
    append [(also_free, ptr)] to [alloc_unmap]. *)
Inductive Callback :=
| CbReclaim (chain0 : nat)
| CbUnmap (also_free : bool) (ptr : Z).

(** A stream: the backend flag, the device, the driver handle, the head of
    the release chain, and the host functions enqueued and not yet run, the
    oldest first. *)
Record Stream := mkStream {
  cuda : bool;
  device : Z;
  handle : Z;
  release_chain : option nat;
  pending : list Callback
}.


Definition set_release_chain (c : option nat) (s : Stream) : Stream :=
  mkStream (cuda s) (device s) (handle s) c (pending s).

Definition push_pending (cb : Callback) (s : Stream) : Stream :=
  mkStream (cuda s) (device s) (handle s) (release_chain s) (pending s ++ [cb]).


(** Calls that leave the allocator, in the order they are made. *)
Inductive Event :=
| EvRawAlloc (type : AllocType.t) (size : Z) (result : option Z)
| EvMemAdvise (ptr size : Z)
| EvRawFree (type : AllocType.t) (ptr : Z)
| EvTrim (warn : bool)
| EvWarnTrim
| EvWarnLeak (type : AllocType.t) (count : nat) (bytes : Z)
| EvSyncAllDevices
| EvHostRegister (ptr size : Z)
| EvHostUnregister (ptr : Z)
| EvMemcpyAsync (dst src size handle : Z)
| EvPrefetchAsync (ptr size device handle : Z)
| EvLaunchHostFunc (handle : Z) (cb : Callback)
| EvTbbEnqueue (cb : Callback).

(** [EvRawAlloc] is one call of [posix_memalign] or of the driver
    allocator of the flavour, with what it returned; [EvTrim] marks one
    entry into [jit_malloc_trim]; [EvWarnTrim] is its warning. *)

Record State := mkState {
  alloc_free : gmap AllocInfo (list Z);
  alloc_used : gmap Z AllocInfo;
  alloc_usage : AllocType.t → Z;
  alloc_watermark : AllocType.t → Z;
  alloc_unmap : list (bool * Z);
  devices : list Device;
  streams : gmap nat Stream;
  active_stream : option nat;
  chains : gmap nat ReleaseChain;
  jit_malloc_trim_warned : bool;
  jit_llvm_vector_width : Z;
  raw_script : list (option Z);
  trace : list Event
}.

(** [raw_script] is what the raw allocators will answer, call by
    call: [Some p] for success with address [p], [None] for a refusal
    ([ENOMEM], or a driver error); an exhausted script refuses. *)

Definition set_alloc_free (v : gmap AllocInfo (list Z)) (σ : State) : State :=
  mkState v (alloc_used σ) (alloc_usage σ) (alloc_watermark σ) (alloc_unmap σ)
    (devices σ) (streams σ) (active_stream σ) (chains σ)
    (jit_malloc_trim_warned σ) (jit_llvm_vector_width σ) (raw_script σ) (trace σ).

Definition set_alloc_used (v : gmap Z AllocInfo) (σ : State) : State :=
  mkState (alloc_free σ) v (alloc_usage σ) (alloc_watermark σ) (alloc_unmap σ)
    (devices σ) (streams σ) (active_stream σ) (chains σ)
    (jit_malloc_trim_warned σ) (jit_llvm_vector_width σ) (raw_script σ) (trace σ).

Definition set_alloc_usage (v : AllocType.t → Z) (σ : State) : State :=
  mkState (alloc_free σ) (alloc_used σ) v (alloc_watermark σ) (alloc_unmap σ)
    (devices σ) (streams σ) (active_stream σ) (chains σ)
    (jit_malloc_trim_warned σ) (jit_llvm_vector_width σ) (raw_script σ) (trace σ).

Definition set_alloc_watermark (v : AllocType.t → Z) (σ : State) : State :=
  mkState (alloc_free σ) (alloc_used σ) (alloc_usage σ) v (alloc_unmap σ)
    (devices σ) (streams σ) (active_stream σ) (chains σ)
    (jit_malloc_trim_warned σ) (jit_llvm_vector_width σ) (raw_script σ) (trace σ).

Definition set_alloc_unmap (v : list (bool * Z)) (σ : State) : State :=
  mkState (alloc_free σ) (alloc_used σ) (alloc_usage σ) (alloc_watermark σ) v
    (devices σ) (streams σ) (active_stream σ) (chains σ)
    (jit_malloc_trim_warned σ) (jit_llvm_vector_width σ) (raw_script σ) (trace σ).

Definition set_streams (v : gmap nat Stream) (σ : State) : State :=
  mkState (alloc_free σ) (alloc_used σ) (alloc_usage σ) (alloc_watermark σ)
    (alloc_unmap σ) (devices σ) v (active_stream σ) (chains σ)
    (jit_malloc_trim_warned σ) (jit_llvm_vector_width σ) (raw_script σ) (trace σ).

Definition set_active_stream (v : option nat) (σ : State) : State :=
  mkState (alloc_free σ) (alloc_used σ) (alloc_usage σ) (alloc_watermark σ)
    (alloc_unmap σ) (devices σ) (streams σ) v (chains σ)
    (jit_malloc_trim_warned σ) (jit_llvm_vector_width σ) (raw_script σ) (trace σ).

Definition set_chains (v : gmap nat ReleaseChain) (σ : State) : State :=
  mkState (alloc_free σ) (alloc_used σ) (alloc_usage σ) (alloc_watermark σ)
    (alloc_unmap σ) (devices σ) (streams σ) (active_stream σ) v
    (jit_malloc_trim_warned σ) (jit_llvm_vector_width σ) (raw_script σ) (trace σ).

Definition set_jit_malloc_trim_warned (v : bool) (σ : State) : State :=
  mkState (alloc_free σ) (alloc_used σ) (alloc_usage σ) (alloc_watermark σ)
    (alloc_unmap σ) (devices σ) (streams σ) (active_stream σ) (chains σ)
    v (jit_llvm_vector_width σ) (raw_script σ) (trace σ).

Definition set_raw_script (v : list (option Z)) (σ : State) : State :=
  mkState (alloc_free σ) (alloc_used σ) (alloc_usage σ) (alloc_watermark σ)
    (alloc_unmap σ) (devices σ) (streams σ) (active_stream σ) (chains σ)
    (jit_malloc_trim_warned σ) (jit_llvm_vector_width σ) v (trace σ).

Definition set_trace (v : list Event) (σ : State) : State :=
  mkState (alloc_free σ) (alloc_used σ) (alloc_usage σ) (alloc_watermark σ)
    (alloc_unmap σ) (devices σ) (streams σ) (active_stream σ) (chains σ)
    (jit_malloc_trim_warned σ) (jit_llvm_vector_width σ)
    (raw_script σ) v.

(** ** Errors and the state monad *)

(** What [jit_raise] throws, by the place that throws it; [Fatal] is
    [jit_fail], which aborts. *)
Inductive Error :=
| NoActiveStream | WrongBackend | OutOfMemory | UnknownPointer
| InvalidDevice | InvalidKindForPrefetch | UnsupportedMigration | Fatal.

#[global] Instance Error_eq_dec : EqDecision Error.
Proof. solve_decision. Defined.

(** [Stuck] stands for behaviour that C++ leaves undefined or that does
    not return: a dangling stream or chain pointer, a null dereference, a
    cyclic chain, a recursion deeper than the fuel. *)
Inductive outcome (A : Type) :=
| Ok (a : A)
| Raise (e : Error)
| Stuck.
Arguments Ok {A} a.
Arguments Raise {A} e.
Arguments Stuck {A}.

(** A computation changes the state and returns, throws or gets stuck;
    the changes made before a throw stay. *)
Definition M (A : Type) : Type := State → outcome A * State.

Definition ret {A} (a : A) : M A := λ σ, (Ok a, σ).

Definition bind {A B} (m : M A) (k : A → M B) : M B := λ σ,
  match m σ with
  | (Ok a, σ') => k a σ'
  | (Raise e, σ') => (Raise e, σ')
  | (Stuck, σ') => (Stuck, σ')
  end.

Definition jit_raise {A} (e : Error) : M A := λ σ, (Raise e, σ).
Definition stuck {A} : M A := λ σ, (Stuck, σ).
Definition get : M State := λ σ, (Ok σ, σ).
Definition gets {A} (f : State → A) : M A := λ σ, (Ok (f σ), σ).
Definition modify (f : State → State) : M unit := λ σ, (Ok tt, f σ).

Notation "x <- m ;; k" := (bind m (λ x, k))
  (at level 100, m at next level, right associativity,
   format "'[v' x  <-  m  ;;  '/' k ']'").
Notation "m ;;; k" := (bind m (λ _, k))
  (at level 100, right associativity, format "'[v' m  ;;;  '/' k ']'").

Definition emit (e : Event) : M unit :=
  modify (λ σ, set_trace (trace σ ++ [e]) σ).

(** [for (auto x : l) body(x)]. *)
Fixpoint for_each {A} (l : list A) (body : A → M unit) : M unit :=
  match l with
  | [] => ret tt
  | x :: l' => body x ;;; for_each l' body
  end.

(** The dereference of a pointer that may dangle. *)
Definition deref {A} (o : option A) : M A :=
  match o with Some a => ret a | None => stuck end.

(** ** Building blocks *)

(** [vec.push_back(ptr)] on the bucket [m[ai]], which [operator[]]
    creates when it is absent. *)
Definition bucket_push (ai : AllocInfo) (ptrs : list Z)
    (m : gmap AllocInfo (list Z)) : gmap AllocInfo (list Z) :=
  <[ai := default [] (m !! ai) ++ ptrs]> m.

(** [state.alloc_free[ai].push_back(ptr)]. *)
Definition push_back_free (ai : AllocInfo) (ptr : Z) : M unit :=
  modify (λ σ, set_alloc_free (bucket_push ai [ptr] (alloc_free σ)) σ).

(** [new ReleaseChain()]: a node with no entries and a null [next], at an
    address that no node occupies. *)
Definition new_ReleaseChain : M nat :=
  σ <- get ;;
  let c := fresh (dom (chains σ)) in
  modify (set_chains (<[c := mkReleaseChain ∅ None]> (chains σ))) ;;;
  ret c.

(** A host function is handed to the stream: [cuLaunchHostFunc] on a CUDA
    stream, [tbb_stream_enqueue_func] otherwise. *)
Definition enqueue (sid : nat) (cb : Callback) : M unit :=
  modify (λ σ, set_streams (alter (push_pending cb) sid (streams σ)) σ).

(** What the raw allocator answers to its next call. *)
Definition raw_answer (script : list (option Z)) : option Z :=
  match script with [] => None | r :: _ => r end.

(** One call of a raw allocator: the next answer of the script. *)
Definition raw_alloc (ai : AllocInfo) : M (option Z) :=
  σ <- get ;;
  let r := raw_answer (raw_script σ) in
  modify (set_raw_script (tail (raw_script σ))) ;;;
  emit (EvRawAlloc (ai_type ai) (ai_size ai) r) ;;;
  ret r.

Definition ENOMEM : Z := 12.

(** [rv = posix_memalign(&ptr, 64, ai.size)]: the pair [(rv, ptr)].  The
    alignment is valid, so the call succeeds or returns [ENOMEM]; [ptr],
    null before the call, is left as it is on failure. *)
Definition posix_memalign (ai : AllocInfo) : M (Z * Z) :=
  r <- raw_alloc ai ;;
  ret (match r with Some p => (0, p) | None => (ENOMEM, 0) end).

(** [ret = alloc((CUdeviceptr * ) &ptr, ai.size)] for the driver allocator
    that the switch selects: whether it returned [CUDA_SUCCESS], and [ptr].
    The allocator of [ManagedReadMostly] advises the driver on success. *)
Definition cuda_alloc (type : AllocType.t) (ai : AllocInfo) : M (bool * Z) :=
  r <- raw_alloc ai ;;
  match r with
  | Some p =>
    (if bool_decide (type = AllocType.ManagedReadMostly)
     then emit (EvMemAdvise p (ai_size ai)) else ret tt) ;;;
    ret (true, p)
  | None => ret (false, 0)
  end.

(** The walk over the release chain in [jit_malloc]: pop from the first
    non-empty bucket keyed by [ai]; null when there is none. *)
Fixpoint recycle_local (fuel : nat) (chain : option nat) (ai : AllocInfo) : M Z :=
  match chain with
  | None => ret 0
  | Some c =>
    match fuel with
    | O => stuck
    | S fuel' =>
      σ <- get ;;
      node <- deref (chains σ !! c) ;;
      match entries node !! ai with
      | Some bucket =>
        match list.last bucket with
        | Some ptr =>
          modify (set_chains
            (<[c := mkReleaseChain (<[ai := removelast bucket]> (entries node))
                                   (next node)]> (chains σ))) ;;;
          ret ptr
        | None => recycle_local fuel' (next node) ai
        end
      | None => recycle_local fuel' (next node) ai
      end
    end
  end.

(** The lookup in [state.alloc_free] in [jit_malloc]. *)
Definition recycle_global (ai : AllocInfo) : M Z :=
  σ <- get ;;
  match alloc_free σ !! ai with
  | Some bucket =>
    match list.last bucket with
    | Some ptr =>
      modify (set_alloc_free (<[ai := removelast bucket]> (alloc_free σ))) ;;;
      ret ptr
    | None => ret 0
    end
  | None => ret 0
  end.

(** ** [jit_free] *)

(** The body of [jit_free]; [jit_free_rec] is the function itself, for the
    calls on the pointers of the unmap queue. *)
Definition jit_free_body (jit_free_rec : Z → M unit) (ptr : Z) : M unit :=
  if ptr =? 0 then ret tt else
  σ <- get ;;
  match alloc_used σ !! ptr with
  | None => jit_raise UnknownPointer
  | Some ai =>
    (if bool_decide (ai_type ai = AllocType.Host) then
       push_back_free ai ptr
     else
       let stream := active_stream σ in
       let cuda_ := bool_decide (ai_type ai ≠ AllocType.HostAsync) in
       match stream with
       | None => emit EvSyncAllDevices ;;; push_back_free ai ptr
       | Some sid =>
         s <- deref (streams σ !! sid) ;;
         if bool_decide (cuda_ = cuda s) then
           chain <- match release_chain s with
                    | Some c => ret c
                    | None =>
                      c <- new_ReleaseChain ;;
                      modify (λ σ, set_streams
                        (alter (set_release_chain (Some c)) sid (streams σ)) σ) ;;;
                      ret c
                    end ;;
           σ1 <- get ;;
           node <- deref (chains σ1 !! chain) ;;
           modify (set_chains
             (<[chain := mkReleaseChain (bucket_push ai [ptr] (entries node))
                                        (next node)]> (chains σ1))) ;;;
           if cuda s then
             alloc_unmap_ <- gets alloc_unmap ;;
             modify (set_alloc_unmap []) ;;;
             for_each alloc_unmap_ (λ kv,
               emit (EvHostUnregister kv.2) ;;;
               if kv.1 then jit_free_rec kv.2 else ret tt)
           else ret tt
         else emit EvSyncAllDevices ;;; push_back_free ai ptr
       end) ;;;
    modify (λ σ, set_alloc_usage
      (<[ai_type ai := wrap (alloc_usage σ (ai_type ai) - ai_size ai)]>
         (alloc_usage σ)) σ) ;;;
    modify (λ σ, set_alloc_used (delete ptr (alloc_used σ)) σ)
  end.

(** The recursion of [jit_free] through the unmap queue is bounded by
    [fuel]; [jit_free_fuel_enough] shows that depth two is never exceeded. *)
Fixpoint jit_free_fuel (fuel : nat) (ptr : Z) : M unit :=
  match fuel with
  | O => stuck
  | S fuel' => jit_free_body (jit_free_fuel fuel') ptr
  end.

Definition jit_free (ptr : Z) : M unit := jit_free_fuel 2 ptr.

(** ** [jit_malloc_trim] *)

(** The raw free of one cached pointer: [cuMemFree], [cuMemFreeHost] or
    [free] by flavour, recorded with the flavour. *)
Definition raw_free (type : AllocType.t) (ptr : Z) : M unit :=
  emit (EvRawFree type ptr).

Definition jit_malloc_trim (warn : bool) : M unit :=
  emit (EvTrim warn) ;;;
  warned <- gets jit_malloc_trim_warned ;;
  (if warn && negb warned then
     emit EvWarnTrim ;;; modify (set_jit_malloc_trim_warned true)
   else ret tt) ;;;
  alloc_free_ <- gets alloc_free ;;
  alloc_unmap_ <- gets alloc_unmap ;;
  modify (λ σ, set_alloc_unmap [] (set_alloc_free ∅ σ)) ;;;
  for_each alloc_unmap_ (λ kv,
    emit (EvHostUnregister kv.2) ;;;
    if kv.1 then jit_free kv.2 else ret tt) ;;;
  for_each (map_to_list alloc_free_) (λ kv,
    for_each kv.2 (raw_free (ai_type kv.1))).

(** Modelled from the spec: the declaration of [jit_malloc_trim], which
    carries the default of its argument [warn], is in [internal.h], not
    among the sources.  Section 7 has the allocation-failure path call
    [trim(warn=true)]. *)
Definition jit_malloc_trim_default : M unit := jit_malloc_trim true.

Section Allocator.

(** Whether the library is compiled with [ENOKI_ENABLE_TBB]. *)
Variable ENOKI_ENABLE_TBB : bool.

(** Without TBB there is no host-asynchronous memory: [HostAsync] is
    replaced by [Host]. *)
Definition host_async_fallback (type : AllocType.t) : AllocType.t :=
  if ENOKI_ENABLE_TBB then type
  else if bool_decide (type = AllocType.HostAsync) then AllocType.Host
  else type.

(** ** [jit_malloc] *)

Definition needs_stream (type : AllocType.t) : bool :=
  bool_decide (type = AllocType.Device ∨ type = AllocType.HostAsync).

(** The block of [jit_malloc] that holds [state.malloc_mutex]: the checks
    of the active stream, then the local and the global lookup.  Returns
    [ai] with its device set, and [ptr]. *)
Definition jit_malloc_locked (type : AllocType.t) (ai : AllocInfo)
    : M (AllocInfo * Z) :=
  stream <- gets active_stream ;;
  ai <- (if needs_stream type then
           match stream with
           | None => jit_raise NoActiveStream
           | Some sid =>
             σ <- get ;;
             s <- deref (streams σ !! sid) ;;
             if bool_decide (negb (cuda s) = bool_decide (type = AllocType.Device))
             then jit_raise WrongBackend
             else ret (set_ai_device (if cuda s then device s else 0) ai)
           end
         else ret ai) ;;
  ptr <- (if needs_stream type then
            σ <- get ;;
            sid <- deref stream ;;
            s <- deref (streams σ !! sid) ;;
            recycle_local (S (size (chains σ))) (release_chain s) ai
          else ret 0) ;;
  ptr <- (if ptr =? 0 then recycle_global ai else ret ptr) ;;
  ret (ai, ptr).

(** The block of [jit_malloc] that calls the raw allocator, with the trim
    and the second attempt after a refusal.  Returns [ptr]. *)
Definition jit_malloc_raw (type : AllocType.t) (ai : AllocInfo) : M Z :=
  if bool_decide (type = AllocType.Host ∨ type = AllocType.HostAsync) then
    r <- posix_memalign ai ;;
    r <- (if r.1 =? ENOMEM then
            jit_malloc_trim_default ;;; posix_memalign ai
          else ret r) ;;
    ret (if negb (r.1 =? 0) then 0 else r.2)
  else
    r <- cuda_alloc type ai ;;
    if negb r.1 then
      jit_malloc_trim_default ;;;
      r <- cuda_alloc type ai ;;
      ret (if negb r.1 then 0 else r.2)
    else ret r.2.

(** [state.alloc_used.emplace(ptr, ai)], which keeps an entry that is
    already there, and the update of the usage and of the watermark. *)
Definition register (ptr : Z) (ai : AllocInfo) : M unit :=
  modify (λ σ, set_alloc_used
    (match alloc_used σ !! ptr with
     | Some _ => alloc_used σ
     | None => <[ptr := ai]> (alloc_used σ)
     end) σ) ;;;
  modify (λ σ,
    let usage := wrap (alloc_usage σ (ai_type ai) + ai_size ai) in
    let watermark := Z.max (alloc_watermark σ (ai_type ai)) usage in
    set_alloc_watermark (<[ai_type ai := watermark]> (alloc_watermark σ))
      (set_alloc_usage (<[ai_type ai := usage]> (alloc_usage σ)) σ)).

Definition jit_malloc (type : AllocType.t) (size : Z) : M Z :=
  if size =? 0 then ret 0 else
  vector_width <- gets jit_llvm_vector_width ;;
  let size := round_align vector_width type size in
  let type := host_async_fallback type in
  let size := round_pow2 size in
  let ai := mkAllocInfo type 0 size in
  r <- jit_malloc_locked type ai ;;
  let ai := r.1 in
  ptr <- (if r.2 =? 0 then jit_malloc_raw type ai else ret r.2) ;;
  if ptr =? 0 then jit_raise OutOfMemory else
  register ptr ai ;;;
  ret ptr.

(** ** [jit_free_flush] and its callback *)





(** ** [jit_malloc_migrate] *)

(** [cuLaunchHostFunc(stream->handle, cb, arg)]. *)
Definition cuLaunchHostFunc (sid : nat) (s : Stream) (cb : Callback) : M unit :=
  emit (EvLaunchHostFunc (handle s) cb) ;;;
  enqueue sid cb.

Definition jit_malloc_migrate (ptr : Z) (type : AllocType.t) (move : Z) : M Z :=
  σ <- get ;;
  match active_stream σ with
  | None => jit_raise NoActiveStream
  | Some sid =>
    match alloc_used σ !! ptr with
    | None => jit_raise UnknownPointer
    | Some ai =>
      if ENOKI_ENABLE_TBB
         && bool_decide ((ai_type ai = AllocType.Host ∧ type = AllocType.HostAsync)
                         ∨ (ai_type ai = AllocType.HostAsync ∧ type = AllocType.Host))
         && negb (move =? 0)
      then
        modify (set_alloc_used (<[ptr := set_ai_type type ai]> (alloc_used σ))) ;;;
        ret ptr
      else
      let type := host_async_fallback type in
      nothing_to_do <-
        (if bool_decide (ai_type ai = type) then
           if bool_decide (type ≠ AllocType.Device) then ret true
           else s <- deref (streams σ !! sid) ;;
                ret (bool_decide (ai_device ai = device s))
         else ret false) ;;
      if nothing_to_do : bool then ret ptr else
      s <- deref (streams σ !! sid) ;;
      if negb (cuda s) then jit_raise WrongBackend else
      ptr_new <- jit_malloc type (ai_size ai) ;;
      if bool_decide (type = AllocType.HostAsync ∨ ai_type ai = AllocType.HostAsync)
      then jit_raise UnsupportedMigration else
      (if bool_decide (ai_type ai = AllocType.Host) then
         emit (EvHostRegister ptr (ai_size ai)) ;;;
         emit (EvMemcpyAsync ptr_new ptr (ai_size ai) (handle s)) ;;;
         cuLaunchHostFunc sid s (CbUnmap (negb (move =? 0)) ptr)
       else if bool_decide (type = AllocType.Host) then
         emit (EvHostRegister ptr_new (ai_size ai)) ;;;
         emit (EvMemcpyAsync ptr_new ptr (ai_size ai) (handle s)) ;;;
         cuLaunchHostFunc sid s (CbUnmap false ptr_new) ;;;
         if negb (move =? 0) then jit_free ptr else ret tt
       else
         emit (EvMemcpyAsync ptr_new ptr (ai_size ai) (handle s)) ;;;
         if negb (move =? 0) then jit_free ptr else ret tt) ;;;
      ret ptr_new
    end
  end.

(** ** [jit_malloc_prefetch] *)

(** [CU_DEVICE_CPU] of the CUDA driver API. *)
Definition CU_DEVICE_CPU : Z := -1.

Definition jit_malloc_prefetch (ptr : Z) (device : Z) : M unit :=
  σ <- get ;;
  match active_stream σ with
  | None => jit_raise NoActiveStream
  | Some sid =>
    s <- deref (streams σ !! sid) ;;
    if negb (cuda s) then jit_raise WrongBackend else
    device <-
      (if device =? -1 then ret CU_DEVICE_CPU
       else if Z.of_nat (length (devices σ)) <=? wrap device
            then jit_raise InvalidDevice
            else d <- deref (devices σ !! Z.to_nat (wrap device)) ;;
                 ret (id d)) ;;
    match alloc_used σ !! ptr with
    | None => jit_raise UnknownPointer
    | Some ai =>
      if bool_decide (ai_type ai ≠ AllocType.Managed
                      ∧ ai_type ai ≠ AllocType.ManagedReadMostly)
      then jit_raise InvalidKindForPrefetch else
      if device =? -2 then
        for_each (devices σ) (λ d,
          emit (EvPrefetchAsync ptr (ai_size ai) (id d) (handle s)))
      else emit (EvPrefetchAsync ptr (ai_size ai) device (handle s))
    end
  end.

(** ** [jit_malloc_shutdown] *)


(** ** Histories *)




End Allocator.

(** ** Predicates over states *)

(** What an entry of [alloc_used] adds to the bytes of the flavour [k]. *)
Definition add_bytes (k : AllocType.t) (ai : AllocInfo) (acc : Z) : Z :=
  if bool_decide (ai_type ai = k) then acc + ai_size ai else acc.

(** The bytes of the entries of flavour [k] of a table. *)
Definition live_bytes_of (k : AllocType.t) (used : gmap Z AllocInfo) : Z :=
  map_fold (λ _, add_bytes k) 0 used.

(** The bytes of the live pointers of one flavour. *)
Definition live_bytes (k : AllocType.t) (σ : State) : Z :=
  live_bytes_of k (alloc_used σ).

(** The usage counters agree with the table of live pointers. *)
Definition usage_consistent (σ : State) : Prop :=
  ∀ k, alloc_usage σ k = live_bytes k σ.

(** The nodes of the release chain that starts at [chain], at most
    [fuel] of them. *)
Fixpoint chain_nodes (fuel : nat) (chains : gmap nat ReleaseChain)
    (chain : option nat) : list ReleaseChain :=
  match fuel, chain with
  | S fuel', Some c =>
    match chains !! c with
    | Some node => node :: chain_nodes fuel' chains (next node)
    | None => []
    end
  | _, _ => []
  end.

(** The nodes of the release chain of a stream. *)
Definition stream_nodes (σ : State) (s : Stream) : list ReleaseChain :=
  chain_nodes (size (chains σ)) (chains σ) (release_chain s).

(** [ptr] is pending under the key [ai] in a node. *)
Definition held (node : ReleaseChain) (ai : AllocInfo) (ptr : Z) : Prop :=
  ∃ bucket, entries node !! ai = Some bucket ∧ ptr ∈ bucket.


Definition is_trim (e : Event) : bool :=
  match e with EvTrim _ => true | _ => false end.

Definition is_raw_alloc (e : Event) : bool :=
  match e with EvRawAlloc _ _ _ => true | _ => false end.

Definition is_warn_trim (e : Event) : bool :=
  match e with EvWarnTrim => true | _ => false end.

Definition is_prefetch (e : Event) : bool :=
  match e with EvPrefetchAsync _ _ _ _ => true | _ => false end.

(** Whatever [m] does, the state it ends in is related by [R] to the
    state it started from. *)
Definition preserves (R : State → State → Prop) {A} (m : M A) : Prop :=
  ∀ σ r σ', m σ = (r, σ') → R σ σ'.

(** Events that are neither a trim, nor a raw allocation, nor the
    warning of the trim. *)
Definition benign (e : Event) : Prop :=
  is_trim e = false ∧ is_raw_alloc e = false ∧ is_warn_trim e = false.

(** [σ'] comes from [σ] without a call of a raw allocator or of the trim:
    the script and the flag are the same, the new events are benign. *)
Definition quiet (σ σ' : State) : Prop :=
  raw_script σ' = raw_script σ
  ∧ jit_malloc_trim_warned σ' = jit_malloc_trim_warned σ
  ∧ ∃ evs, trace σ' = trace σ ++ evs ∧ Forall benign evs.

(** [σ'] comes from [σ] without a new warning of the trim, once the
    warning has been given. *)
Definition calm (σ σ' : State) : Prop :=
  jit_malloc_trim_warned σ = true →
  jit_malloc_trim_warned σ' = true
  ∧ ∃ evs, trace σ' = trace σ ++ evs
           ∧ Forall (λ e, is_warn_trim e = false) evs.

(** An empty unmap queue stays empty. *)
Definition unmap_kept (σ σ' : State) : Prop :=
  alloc_unmap σ = [] → alloc_unmap σ' = [].

(** ** Example states *)

(** Stream 0 is a CUDA stream on device 0, stream 1 a TBB stream; the
    registry has one device; nothing is allocated or cached. *)
Definition gpu_stream : Stream := mkStream true 0 7 None [].
Definition cpu_stream : Stream := mkStream false 0 0 None [].

Definition initial_state (script : list (option Z)) (active : option nat) : State :=
  mkState ∅ ∅ (λ _, 0) (λ _, 0) [] [mkDevice 0]
    (<[0%nat := gpu_stream]> (<[1%nat := cpu_stream]> ∅))
    active ∅ false 8 script [].

(** The state in which [ptr] is live with the descriptor [ai], and
    counted in the usage. *)
Definition with_live (ptr : Z) (ai : AllocInfo) (σ : State) : State :=
  set_alloc_usage (<[ai_type ai := ai_size ai]> (alloc_usage σ))
    (set_alloc_used (<[ptr := ai]> (alloc_used σ)) σ).

(** * Verification *)

(** ** Size classification *)

Lemma smeared_init x : smeared 1 x x.
Proof.
  intros i Hi; split.
  - intros H; exists i; split; [lia | done].
  - intros (j & Hj & H). by replace i with j by lia.
Qed.

Lemma smeared_step m x y :
  0 < m → smeared m x y → smeared (2 * m) x (Z.lor y (Z.shiftr y m)).
Proof.
  intros Hm Hy i Hi.
  rewrite Z.lor_spec, Z.shiftr_spec by lia.
  rewrite orb_true_iff, (Hy i), (Hy (i + m)) by lia.
  split.
  - intros [(j & Hj & H) | (j & Hj & H)]; exists j; split; (lia || done).
  - intros (j & Hj & H).
    destruct (Z_lt_ge_dec j (i + m)); [left | right]; exists j; split; (lia || done).
Qed.

Lemma smeared_ones x y :
  0 <= x < 2 ^ 64 → smeared 64 x y → 0 <= y → y = Z.ones (Z.log2_up (x + 1)).
Proof.
  intros Hx Hy Hy0.
  destruct (decide (x = 0)) as [-> | Hne].
  - apply Z.bits_inj'. intros i Hi.
    change (Z.ones (Z.log2_up (0 + 1))) with 0.
    rewrite Z.bits_0. apply not_true_is_false. rewrite (Hy i Hi).
    intros (j & _ & H). by rewrite Z.bits_0 in H.
  - assert (0 < x) as Hpos by lia.
    rewrite Z.log2_up_eqn by lia.
    replace (Z.pred (x + 1)) with x by lia.
    pose proof (Z.log2_nonneg x) as Hl0.
    assert (Z.log2 x < 64) as Hl by (apply Z.log2_lt_pow2; lia).
    apply Z.bits_inj'. intros i Hi.
    rewrite Z.testbit_ones_nonneg by lia.
    destruct (Z_lt_ge_dec i (Z.succ (Z.log2 x))).
    + replace (i <? Z.succ (Z.log2 x)) with true by (symmetry; apply Z.ltb_lt; lia).
      apply (Hy i Hi). exists (Z.log2 x). split; [lia |].
      by apply Z.bit_log2.
    + replace (i <? Z.succ (Z.log2 x)) with false by (symmetry; apply Z.ltb_ge; lia).
      apply not_true_is_false. rewrite (Hy i Hi).
      intros (j & Hj & H). rewrite Z.bits_above_log2 in H by lia. done.
Qed.

Lemma round_pow2_smeared x :
  ∃ y, round_pow2 x = wrap (y + 1) ∧ 0 <= y ∧ smeared 64 (wrap (x - 1)) y.
Proof.
  unfold round_pow2.
  set (x0 := wrap (x - 1)).
  assert (0 <= x0) as H0 by (apply Z.mod_pos_bound; lia).
  eexists; split; [reflexivity |]. split.
  - repeat (apply Z.lor_nonneg; split; [| apply Z.shiftr_nonneg]); done.
  - change 64 with (2 * (2 * (2 * (2 * (2 * (2 * 1)))))).
    do 6 (apply smeared_step; [lia |]). apply smeared_init.
Qed.

Lemma round_pow2_log2_up x :
  1 <= x <= 2 ^ 63 → round_pow2 x = 2 ^ Z.log2_up x.
Proof.
  intros Hx.
  destruct (round_pow2_smeared x) as (y & -> & Hy0 & Hy).
  assert (wrap (x - 1) = x - 1) as Hw by (apply Z.mod_small; lia).
  rewrite Hw in Hy.
  rewrite (smeared_ones (x - 1) y) by (lia || done).
  replace (x - 1 + 1) with x by lia.
  rewrite Z.ones_equiv.
  replace (Z.pred (2 ^ Z.log2_up x) + 1) with (2 ^ Z.log2_up x) by lia.
  apply Z.mod_small.
  pose proof (Z.log2_up_nonneg x).
  assert (Z.log2_up x <= 63).
  { change 63 with (Z.log2_up (2 ^ 63)). apply Z.log2_up_le_mono. lia. }
  split; [lia |]. apply Z.pow_lt_mono_r; lia.
Qed.







(** ** Relations kept by computations *)

Section Preserves.
Context (R : State → State → Prop) `{!PreOrder R}.

Lemma preserves_ret {A} (a : A) : preserves R (ret a).
Proof. intros σ r σ' [= _ <-]. reflexivity. Qed.

Lemma preserves_raise {A} e : preserves R (@jit_raise A e).
Proof. intros σ r σ' [= _ <-]. reflexivity. Qed.

Lemma preserves_stuck {A} : preserves R (@stuck A).
Proof. intros σ r σ' [= _ <-]. reflexivity. Qed.

Lemma preserves_get : preserves R get.
Proof. intros σ r σ' [= _ <-]. reflexivity. Qed.

Lemma preserves_gets {A} (f : State → A) : preserves R (gets f).
Proof. intros σ r σ' [= _ <-]. reflexivity. Qed.

Lemma preserves_deref {A} (o : option A) : preserves R (deref o).
Proof. destruct o; [apply preserves_ret | apply preserves_stuck]. Qed.

Lemma preserves_modify f : (∀ σ, R σ (f σ)) → preserves R (modify f).
Proof. intros Hf σ r σ' [= _ <-]. apply Hf. Qed.

Lemma preserves_bind {A B} (m : M A) (k : A → M B) :
  preserves R m → (∀ a, preserves R (k a)) → preserves R (bind m k).
Proof.
  intros Hm Hk σ r σ'. unfold bind.
  destruct (m σ) as [[a | e |] σ1] eqn:E; intros H.
  - transitivity σ1; [by eapply Hm | by eapply Hk].
  - injection H as _ <-. by eapply Hm.
  - injection H as _ <-. by eapply Hm.
Qed.

Lemma preserves_for_each {A} (l : list A) (body : A → M unit) :
  (∀ x, preserves R (body x)) → preserves R (for_each l body).
Proof.
  intros Hb. induction l as [| x l IH]; simpl.
  - apply preserves_ret.
  - apply preserves_bind; [apply Hb | intros _; apply IH].
Qed.
End Preserves.

(** Breaks a goal [preserves R m] along the structure of [m]; the leaves
    that remain are [modify]s and calls of other operations. *)
Ltac preserves_struct :=
  repeat lazymatch goal with
    | |- PreOrder _ => apply _
    | |- ∀ _, _ => intros ?
    | |- preserves _ (if ?b then _ else _) => destruct b
    | |- preserves _ (match ?x with _ => _ end) => destruct x
    | |- preserves _ (let _ := _ in _) => cbv zeta
    | |- preserves _ (ret _) => apply preserves_ret
    | |- preserves _ (jit_raise _) => apply preserves_raise
    | |- preserves _ stuck => apply preserves_stuck
    | |- preserves _ get => apply preserves_get
    | |- preserves _ (gets _) => apply preserves_gets
    | |- preserves _ (deref _) => apply preserves_deref
    | |- preserves _ (bind _ _) => apply preserves_bind
    | |- preserves _ (for_each _ _) => apply preserves_for_each
    end.

#[local] Instance quiet_preorder : PreOrder quiet.
Proof.
  split.
  - intros σ. repeat split. exists []. by rewrite app_nil_r.
  - intros σ1 σ2 σ3 (Hs1 & Hw1 & evs1 & Ht1 & Hb1) (Hs2 & Hw2 & evs2 & Ht2 & Hb2).
    repeat split; [congruence | congruence |].
    exists (evs1 ++ evs2). rewrite Ht2, Ht1, app_assoc. split; [done |].
    by apply Forall_app.
Qed.







(** ** Zero-size requests *)

(** C9: for every flavour and every state, whatever the active stream is,
    [jit_malloc(type, 0)] returns the null pointer and leaves the whole
    state as it was: nothing is registered in [alloc_used], no [AllocInfo]
    is built, and the counters, the caches and the trace are unchanged. *)
Theorem jit_malloc_zero (tbb : bool) (type : AllocType.t) (σ : State) :
  jit_malloc tbb type 0 σ = (Ok 0, σ).
Proof. reflexivity. Qed.

(** ** The in-place change between [Host] and [HostAsync] *)

(** The fast path of [jit_malloc_migrate]. *)
Lemma jit_malloc_migrate_fast_path
    (σ : State) (sid : nat) (ptr : Z) (ai : AllocInfo)
    (type : AllocType.t) (move : Z) :
  active_stream σ = Some sid →
  alloc_used σ !! ptr = Some ai →
  (ai_type ai = AllocType.Host ∧ type = AllocType.HostAsync)
    ∨ (ai_type ai = AllocType.HostAsync ∧ type = AllocType.Host) →
  move ≠ 0 →
  jit_malloc_migrate true ptr type move σ
  = (Ok ptr, set_alloc_used (<[ptr := set_ai_type type ai]> (alloc_used σ)) σ).
Proof.
  intros Hs Hp Hk Hm.
  unfold jit_malloc_migrate, bind, get. rewrite Hs, Hp.
  rewrite bool_decide_true by done.
  apply Z.eqb_neq in Hm. rewrite Hm. reflexivity.
Qed.

(** C8: with TBB compiled in and some stream active, migrating a live
    [Host] pointer to [HostAsync], or a live [HostAsync] pointer to
    [Host], with [move] set returns the pointer itself; the only change
    of the state is the flavour of the entry of [ptr] in [alloc_used], so
    there is no allocation, copy or free (the trace, the caches and the
    raw allocator are untouched). *)
Theorem jit_malloc_migrate_host_async_in_place
    (σ : State) (sid : nat) (ptr : Z) (ai : AllocInfo)
    (type : AllocType.t) (move : Z) :
  active_stream σ = Some sid →
  alloc_used σ !! ptr = Some ai →
  (ai_type ai = AllocType.Host ∧ type = AllocType.HostAsync)
    ∨ (ai_type ai = AllocType.HostAsync ∧ type = AllocType.Host) →
  move ≠ 0 →
  jit_malloc_migrate true ptr type move σ
  = (Ok ptr,
     set_alloc_used (<[ptr := mkAllocInfo type (ai_device ai) (ai_size ai)]>
                       (alloc_used σ)) σ).
Proof. apply jit_malloc_migrate_fast_path. Qed.

(** ** The trim warning is given once *)




#[local] Instance calm_preorder : PreOrder calm.
Proof.
  split.
  - intros σ Hw. split; [done |]. exists []. by rewrite app_nil_r.
  - intros σ1 σ2 σ3 H12 H23 Hw.
    destruct (H12 Hw) as (Hw2 & evs1 & Ht1 & Hb1).
    destruct (H23 Hw2) as (Hw3 & evs2 & Ht2 & Hb2).
    split; [done |]. exists (evs1 ++ evs2).
    rewrite Ht2, Ht1, app_assoc. split; [done |]. by apply Forall_app.
Qed.



















(** ** One trim and one retry after a refusal *)






Lemma jit_malloc_migrate_host_async_in_place_witness :
  jit_malloc_migrate true 4096 AllocType.HostAsync 1
    (with_live 4096 (mkAllocInfo AllocType.Host 0 128) (initial_state [] (Some 1%nat)))
  = (Ok 4096,
     set_alloc_used
       (<[4096 := mkAllocInfo AllocType.HostAsync 0 128]>
          (alloc_used (with_live 4096 (mkAllocInfo AllocType.Host 0 128)
                         (initial_state [] (Some 1%nat)))))
       (with_live 4096 (mkAllocInfo AllocType.Host 0 128) (initial_state [] (Some 1%nat)))).
Proof.
  apply (jit_malloc_migrate_host_async_in_place _ 1%nat 4096
           (mkAllocInfo AllocType.Host 0 128));
    [reflexivity | reflexivity | by left | done].
Defined.

(** ** Prefetch *)

(** C4: with a CUDA stream active and a registry that [size_t] can count,
    [jit_malloc_prefetch(ptr, -2)] throws the invalid-device error before
    it looks at [ptr]: the cast [(size_t) device] of [-2] is [2^64 - 2],
    which no registry size exceeds, so the broadcast branch is not
    reached and no prefetch is issued. *)
Theorem jit_malloc_prefetch_broadcast_rejected
    (σ : State) (sid : nat) (s : Stream) (ptr : Z) :
  active_stream σ = Some sid →
  streams σ !! sid = Some s →
  cuda s = true →
  Z.of_nat (length (devices σ)) <= 2 ^ 64 - 2 →
  jit_malloc_prefetch ptr (-2) σ = (Raise InvalidDevice, σ).
Proof.
  intros Ha Hs Hc Hn.
  unfold jit_malloc_prefetch, bind, get. rewrite Ha, Hs. simpl. rewrite Hc. simpl.
  change (wrap (-2)) with (2 ^ 64 - 2).
  apply Z.leb_le in Hn. rewrite Hn. reflexivity.
Qed.

Lemma jit_malloc_prefetch_broadcast_rejected_witness :
  jit_malloc_prefetch 4096 (-2)
    (with_live 4096 (mkAllocInfo AllocType.Managed 0 128)
       (initial_state [] (Some 0%nat)))
  = (Raise InvalidDevice,
     with_live 4096 (mkAllocInfo AllocType.Managed 0 128)
       (initial_state [] (Some 0%nat))).
Proof.
  apply (jit_malloc_prefetch_broadcast_rejected _ 0%nat gpu_stream 4096);
    [reflexivity | reflexivity | reflexivity | vm_compute; discriminate].
Defined.

(** The other two cases of the device argument of [jit_malloc_prefetch]. *)
Lemma jit_malloc_prefetch_cpu σ sid s ptr ai :
  active_stream σ = Some sid →
  streams σ !! sid = Some s →
  cuda s = true →
  alloc_used σ !! ptr = Some ai →
  ai_type ai = AllocType.Managed ∨ ai_type ai = AllocType.ManagedReadMostly →
  jit_malloc_prefetch ptr (-1) σ
  = (Ok tt, set_trace (trace σ ++ [EvPrefetchAsync ptr (ai_size ai)
                                     CU_DEVICE_CPU (handle s)]) σ).
Proof.
  intros Ha Hs Hc Hp Hk.
  unfold jit_malloc_prefetch, bind, get. rewrite Ha, Hs. simpl. rewrite Hc. simpl.
  rewrite Hp. rewrite bool_decide_false by (intros [? ?]; destruct Hk; done).
  reflexivity.
Qed.

Lemma jit_malloc_prefetch_index σ sid s ptr ai (device : Z) d :
  active_stream σ = Some sid →
  streams σ !! sid = Some s →
  cuda s = true →
  alloc_used σ !! ptr = Some ai →
  ai_type ai = AllocType.Managed ∨ ai_type ai = AllocType.ManagedReadMostly →
  0 <= device < 2 ^ 31 →
  devices σ !! Z.to_nat device = Some d →
  id d ≠ -2 →
  jit_malloc_prefetch ptr device σ
  = (Ok tt, set_trace (trace σ ++ [EvPrefetchAsync ptr (ai_size ai)
                                     (id d) (handle s)]) σ).
Proof.
  intros Ha Hs Hc Hp Hk Hd Hl Hid.
  unfold jit_malloc_prefetch, bind, get. rewrite Ha, Hs. simpl. rewrite Hc. simpl.
  replace (device =? -1) with false by (symmetry; apply Z.eqb_neq; lia).
  assert (wrap device = device) as -> by (apply Z.mod_small; lia).
  apply lookup_lt_Some in Hl as Hlt.
  replace (Z.of_nat (length (devices σ)) <=? device) with false
    by (symmetry; apply Z.leb_gt; lia).
  rewrite Hl. simpl. rewrite Hp.
  rewrite bool_decide_false by (intros [? ?]; destruct Hk; done).
  apply Z.eqb_neq in Hid. rewrite Hid. reflexivity.
Qed.

(** ** What a successful [jit_malloc] has done *)





Lemma register_lookup ptr ai σ1 σ' :
  register ptr ai σ1 = (Ok tt, σ') →
  alloc_used σ1 !! ptr = None →
  alloc_used σ' !! ptr = Some ai
  ∧ ∀ q, q ≠ ptr → alloc_used σ' !! q = alloc_used σ1 !! q.
Proof.
  unfold register, bind, modify. intros [= <-] Hnone. simpl. rewrite Hnone.
  split; [apply lookup_insert_eq |]. intros q Hq. by apply lookup_insert_ne.
Qed.

(** ** The rounded size *)




(** ** Usage counters *)

Lemma add_bytes_zero k ai acc : add_bytes k ai acc = acc + add_bytes k ai 0.
Proof. unfold add_bytes. destruct (bool_decide _); lia. Qed.

Lemma add_bytes_comm k ai1 ai2 acc :
  add_bytes k ai1 (add_bytes k ai2 acc) = add_bytes k ai2 (add_bytes k ai1 acc).
Proof. unfold add_bytes. repeat destruct (bool_decide _); lia. Qed.

Lemma live_bytes_of_insert k (used : gmap Z AllocInfo) ptr ai :
  used !! ptr = None →
  live_bytes_of k (<[ptr := ai]> used) = live_bytes_of k used + add_bytes k ai 0.
Proof.
  intros Hnone. unfold live_bytes_of.
  rewrite map_fold_insert_L; [apply add_bytes_zero | | done].
  intros. apply add_bytes_comm.
Qed.

Lemma live_bytes_of_delete k (used : gmap Z AllocInfo) ptr ai :
  used !! ptr = Some ai →
  live_bytes_of k used = live_bytes_of k (delete ptr used) + add_bytes k ai 0.
Proof.
  intros Hsome.
  rewrite <- (insert_delete_id used ptr ai Hsome) at 1.
  apply live_bytes_of_insert, lookup_delete_eq.
Qed.

Lemma live_bytes_of_update k (used : gmap Z AllocInfo) ptr ai ai' :
  used !! ptr = Some ai →
  live_bytes_of k (<[ptr := ai']> used)
  = live_bytes_of k used - add_bytes k ai 0 + add_bytes k ai' 0.
Proof.
  intros Hsome. rewrite <- insert_delete_eq.
  rewrite live_bytes_of_insert by apply lookup_delete_eq.
  rewrite (live_bytes_of_delete k used ptr ai Hsome). lia.
Qed.

(** The end of [jit_malloc] keeps the counters in step with the table
    when the pointer is new and the counter does not overflow. *)
Lemma register_usage_consistent ptr ai σ :
  usage_consistent σ →
  alloc_used σ !! ptr = None →
  0 <= alloc_usage σ (ai_type ai) + ai_size ai < 2 ^ 64 →
  usage_consistent (register ptr ai σ).2.
Proof.
  intros Hinv Hnone Hrange k. unfold register, bind, modify, live_bytes. simpl.
  rewrite Hnone, live_bytes_of_insert by done. unfold add_bytes.
  destruct (decide (ai_type ai = k)) as [<- | Hne].
  - rewrite fn_lookup_insert, bool_decide_true by done.
    unfold wrap. rewrite Z.mod_small by done. rewrite (Hinv (ai_type ai)).
    unfold live_bytes. lia.
  - rewrite fn_lookup_insert_ne, bool_decide_false by done.
    rewrite (Hinv k). unfold live_bytes. lia.
Qed.

(** What [jit_free] does with a host pointer. *)
Lemma jit_free_body_host jit_free_rec ptr ai σ :
  ptr ≠ 0 →
  alloc_used σ !! ptr = Some ai →
  ai_type ai = AllocType.Host →
  jit_free_body jit_free_rec ptr σ
  = (Ok tt,
     set_alloc_used (delete ptr (alloc_used σ))
       (set_alloc_usage
          (<[ai_type ai := wrap (alloc_usage σ (ai_type ai) - ai_size ai)]>
             (alloc_usage σ))
          (set_alloc_free (bucket_push ai [ptr] (alloc_free σ)) σ))).
Proof.
  intros Hptr Hsome Hty. unfold jit_free_body.
  apply Z.eqb_neq in Hptr. rewrite Hptr.
  unfold bind at 1, get at 1. rewrite Hsome, bool_decide_true by done.
  reflexivity.
Qed.

(** [jit_free] of a host pointer keeps the counters in step too. *)
Lemma jit_free_host_usage_consistent ptr ai σ :
  usage_consistent σ →
  ptr ≠ 0 →
  alloc_used σ !! ptr = Some ai →
  ai_type ai = AllocType.Host →
  0 <= alloc_usage σ AllocType.Host - ai_size ai < 2 ^ 64 →
  usage_consistent (jit_free ptr σ).2.
Proof.
  intros Hinv Hptr Hsome Hty Hrange k.
  unfold jit_free. cbn [jit_free_fuel].
  rewrite (jit_free_body_host _ ptr ai σ Hptr Hsome Hty).
  unfold live_bytes. simpl.
  pose proof (Hinv k) as Hk. unfold live_bytes in Hk.
  rewrite (live_bytes_of_delete k (alloc_used σ) ptr ai Hsome) in Hk.
  unfold add_bytes in *. rewrite Hty in *.
  destruct (decide (AllocType.Host = k)) as [<- | Hne].
  - rewrite fn_lookup_insert. rewrite bool_decide_true in Hk by done.
    unfold wrap. rewrite Z.mod_small by done. lia.
  - rewrite fn_lookup_insert_ne by done. rewrite bool_decide_false in Hk by done.
    lia.
Qed.

(** C1: the in-place change between [Host] and [HostAsync] rewrites the
    flavour of the entry of [ptr] in [alloc_used] and leaves [alloc_usage]
    as it was.  From a state in which the counters agree with the table,
    the counter of the old flavour is then [ai_size ai] above the bytes of
    its live entries, the counter of the new flavour [ai_size ai] below:
    the agreement is lost. *)
Theorem jit_malloc_migrate_in_place_usage_drift
    (σ : State) (sid : nat) (ptr : Z) (ai : AllocInfo)
    (type : AllocType.t) (move : Z) :
  usage_consistent σ →
  active_stream σ = Some sid →
  alloc_used σ !! ptr = Some ai →
  (ai_type ai = AllocType.Host ∧ type = AllocType.HostAsync)
    ∨ (ai_type ai = AllocType.HostAsync ∧ type = AllocType.Host) →
  move ≠ 0 →
  ai_size ai ≠ 0 →
  ∃ σ',
    jit_malloc_migrate true ptr type move σ = (Ok ptr, σ')
    ∧ alloc_usage σ' (ai_type ai) = live_bytes (ai_type ai) σ' + ai_size ai
    ∧ alloc_usage σ' type = live_bytes type σ' - ai_size ai
    ∧ ¬ usage_consistent σ'.
Proof.
  intros Hinv Hs Hp Hk Hm Hsz.
  eexists. split; [by eapply jit_malloc_migrate_fast_path |].
  assert (ai_type ai ≠ type) as Hne by (destruct Hk as [[-> ->] | [-> ->]]; done).
  assert (alloc_usage σ (ai_type ai)
          = live_bytes_of (ai_type ai)
              (<[ptr := set_ai_type type ai]> (alloc_used σ)) + ai_size ai) as H1.
  { rewrite (Hinv (ai_type ai)). unfold live_bytes.
    rewrite (live_bytes_of_update _ _ ptr ai) by done. unfold add_bytes. simpl.
    rewrite bool_decide_true, bool_decide_false by done. lia. }
  assert (alloc_usage σ type
          = live_bytes_of type
              (<[ptr := set_ai_type type ai]> (alloc_used σ)) - ai_size ai) as H2.
  { rewrite (Hinv type). unfold live_bytes.
    rewrite (live_bytes_of_update _ _ ptr ai) by done. unfold add_bytes. simpl.
    rewrite bool_decide_false, bool_decide_true by done. lia. }
  unfold live_bytes. simpl. split; [done |]. split; [done |].
  intros Hinv'. specialize (Hinv' type). unfold live_bytes in Hinv'.
  simpl in Hinv'. lia.
Qed.

Lemma jit_malloc_migrate_in_place_usage_drift_witness :
  ∃ σ',
    jit_malloc_migrate true 4096 AllocType.HostAsync 1
      (with_live 4096 (mkAllocInfo AllocType.Host 0 128)
         (initial_state [] (Some 1%nat)))
    = (Ok 4096, σ')
    ∧ alloc_usage σ' AllocType.Host = live_bytes AllocType.Host σ' + 128
    ∧ alloc_usage σ' AllocType.HostAsync = live_bytes AllocType.HostAsync σ' - 128
    ∧ ¬ usage_consistent σ'.
Proof.
  apply (jit_malloc_migrate_in_place_usage_drift
           (with_live 4096 (mkAllocInfo AllocType.Host 0 128)
              (initial_state [] (Some 1%nat)))
           1%nat 4096 (mkAllocInfo AllocType.Host 0 128)
           AllocType.HostAsync 1);
    [by intros [] | reflexivity | reflexivity
    | by left | done | done].
Defined.

(** ** The depth of the recursion of [jit_free] *)

#[local] Instance unmap_kept_preorder : PreOrder unmap_kept.
Proof.
  split.
  - intros σ H. exact H.
  - intros σ1 σ2 σ3 H12 H23 H. apply H23, H12, H.
Qed.

Lemma unmap_kept_modify f :
  (∀ σ, alloc_unmap (f σ) = alloc_unmap σ) → preserves unmap_kept (modify f).
Proof. intros Hf. apply preserves_modify. intros σ H. by rewrite Hf. Qed.

Ltac unmap_leaf :=
  first
    [ apply unmap_kept_modify; done
    | apply preserves_modify; intros ? ?; done ].

Lemma jit_free_body_unmap_kept jit_free_rec ptr :
  (∀ p, preserves unmap_kept (jit_free_rec p)) →
  preserves unmap_kept (jit_free_body jit_free_rec ptr).
Proof.
  intros Hrec. unfold jit_free_body, new_ReleaseChain, push_back_free, emit.
  preserves_struct; try unmap_leaf; apply Hrec.
Qed.

Lemma jit_free_fuel_unmap_kept fuel ptr :
  preserves unmap_kept (jit_free_fuel fuel ptr).
Proof.
  revert ptr. induction fuel as [| fuel IH]; intros ptr; simpl.
  - apply preserves_stuck. apply _.
  - by apply jit_free_body_unmap_kept.
Qed.

(** With an empty unmap queue the body of [jit_free] makes no call of
    itself. *)
(** Unfolds the monad and the small helpers, and projects the state. *)
Ltac monad_unfold :=
  unfold deref, new_ReleaseChain, emit, push_back_free, enqueue;
  unfold jit_raise, stuck, modify, gets, get, ret, bind;
  cbv beta iota zeta;
  cbn [fst snd
       alloc_free alloc_used alloc_usage alloc_watermark alloc_unmap devices
       streams active_stream chains jit_malloc_trim_warned
       jit_llvm_vector_width raw_script trace
       set_alloc_free set_alloc_used set_alloc_usage set_alloc_watermark
       set_alloc_unmap set_streams set_active_stream set_chains
       set_jit_malloc_trim_warned set_raw_script set_trace].

Lemma jit_free_body_empty_unmap rec1 rec2 ptr σ :
  alloc_unmap σ = [] →
  jit_free_body rec1 ptr σ = jit_free_body rec2 ptr σ.
Proof.
  intros Hu. unfold jit_free_body.
  destruct (ptr =? 0); [done |].
  monad_unfold.
  destruct (alloc_used σ !! ptr) as [ai |]; [| done].
  destruct (bool_decide (ai_type ai = AllocType.Host)); [done |].
  destruct (active_stream σ) as [sid |]; [| done].
  destruct (streams σ !! sid) as [s |]; [| done].
  monad_unfold.
  match goal with
  | |- context [bool_decide (?b = cuda s)] => destruct (bool_decide (b = cuda s))
  end; [| done].
  destruct (release_chain s) as [c |]; monad_unfold.
  - destruct (chains σ !! c); [| done]. monad_unfold.
    destruct (cuda s); [| done]. monad_unfold. by rewrite Hu.
  - rewrite lookup_insert_eq. monad_unfold.
    destruct (cuda s); [| done]. monad_unfold. by rewrite Hu.
Qed.

Lemma for_each_ext {A} (I : State → Prop) (l : list A) (body1 body2 : A → M unit) σ :
  (∀ x τ, I τ → body1 x τ = body2 x τ) →
  (∀ x τ r τ', I τ → body1 x τ = (r, τ') → I τ') →
  I σ →
  for_each l body1 σ = for_each l body2 σ.
Proof.
  intros Heq Hinv. revert σ. induction l as [| x l IH]; intros σ HI; simpl.
  - done.
  - unfold bind. rewrite <- (Heq x σ HI).
    destruct (body1 x σ) as [[[] | e |] τ] eqn:E; [| done | done].
    apply IH. by eapply Hinv.
Qed.

Lemma bind_cong {A B} (m m' : M A) (k k' : A → M B) σ :
  m σ = m' σ →
  (∀ a σ1, m σ = (Ok a, σ1) → k a σ1 = k' a σ1) →
  bind m k σ = bind m' k' σ.
Proof.
  intros Hm Hk. unfold bind. rewrite <- Hm.
  destruct (m σ) as [[a | e |] σ1]; [by apply Hk | done | done].
Qed.

(** Compares two computations that differ only below their binds. *)
Ltac cong_step :=
  lazymatch goal with
  | |- bind _ _ _ = bind _ _ _ =>
    apply bind_cong; [try reflexivity | first [reflexivity | intros ? ? ?]]
  | |- (if ?b then _ else _) _ = _ => destruct b
  | |- (match ?x with _ => _ end) _ = _ => destruct x
  | |- (let _ := _ in _) _ = _ => cbv zeta
  end.

(** The calls that the body of [jit_free] makes of itself start from an
    empty unmap queue: two versions of the function that agree there give
    the same body. *)
Lemma jit_free_body_ext rec1 rec2 ptr σ :
  (∀ p τ, alloc_unmap τ = [] → rec1 p τ = rec2 p τ) →
  (∀ p, preserves unmap_kept (rec1 p)) →
  jit_free_body rec1 ptr σ = jit_free_body rec2 ptr σ.
Proof.
  intros Heq Hkept.
  assert (∀ l τ, alloc_unmap τ = [] →
            for_each l (λ kv : bool * Z,
              emit (EvHostUnregister kv.2) ;;;
              if kv.1 then rec1 kv.2 else ret tt) τ
            = for_each l (λ kv : bool * Z,
              emit (EvHostUnregister kv.2) ;;;
              if kv.1 then rec2 kv.2 else ret tt) τ) as Hloop.
  { intros l τ Hτ.
    apply (for_each_ext (λ τ, alloc_unmap τ = [])); [| | done].
    - intros [[] q] τ1 H1; monad_unfold; [| done]. by apply Heq.
    - intros [[] q] τ1 r τ2 H1; monad_unfold.
      + intros H. by apply (Hkept q _ _ _ H).
      + by intros [= _ <-]. }
  unfold jit_free_body.
  repeat cong_step; try reflexivity.
  apply Hloop.
  match goal with H : modify _ _ = _ |- _ => by injection H as _ <- end.
Qed.

Lemma jit_free_fuel_more n ptr σ :
  jit_free_fuel (S (S n)) ptr σ = jit_free_fuel 2 ptr σ.
Proof.
  cbn [jit_free_fuel].
  apply jit_free_body_ext.
  - intros p τ Hτ. by apply jit_free_body_empty_unmap.
  - intros p. apply (jit_free_fuel_unmap_kept (S n)).
Qed.

(** X1: the recursion of [jit_free] through the unmap queue is at most two
    calls deep, whatever the state: the calls made on the queued pointers
    start after the queue has been swapped out, find it empty and make no
    call of their own.  So [jit_free], which allows depth two, is what any
    larger allowance gives. *)
Theorem jit_free_fuel_enough (n : nat) (ptr : Z) (σ : State) :
  jit_free_fuel (S (S n)) ptr σ = jit_free ptr σ.
Proof. apply jit_free_fuel_more. Qed.

(** ** [round_pow2] at the ends of its range, and on 32 bits *)

Lemma smeared_ones_width w x y :
  0 < w → 0 <= x < 2 ^ w → smeared w x y → 0 <= y →
  y = Z.ones (Z.log2_up (x + 1)).
Proof.
  intros Hw Hx Hy Hy0.
  destruct (decide (x = 0)) as [-> | Hne].
  - apply Z.bits_inj'. intros i Hi.
    change (Z.ones (Z.log2_up (0 + 1))) with 0.
    rewrite Z.bits_0. apply not_true_is_false. rewrite (Hy i Hi).
    intros (j & _ & H). by rewrite Z.bits_0 in H.
  - assert (0 < x) as Hpos by lia.
    rewrite Z.log2_up_eqn by lia.
    replace (Z.pred (x + 1)) with x by lia.
    pose proof (Z.log2_nonneg x) as Hl0.
    assert (Z.log2 x < w) as Hl by (apply Z.log2_lt_pow2; lia).
    apply Z.bits_inj'. intros i Hi.
    rewrite Z.testbit_ones_nonneg by lia.
    destruct (Z_lt_ge_dec i (Z.succ (Z.log2 x))).
    + replace (i <? Z.succ (Z.log2 x)) with true by (symmetry; apply Z.ltb_lt; lia).
      apply (Hy i Hi). exists (Z.log2 x). split; [lia |].
      by apply Z.bit_log2.
    + replace (i <? Z.succ (Z.log2 x)) with false by (symmetry; apply Z.ltb_ge; lia).
      apply not_true_is_false. rewrite (Hy i Hi).
      intros (j & Hj & H). rewrite Z.bits_above_log2 in H by lia. done.
Qed.

Lemma round_pow2_32_smeared x :
  ∃ y, round_pow2_32 x = wrap32 (y + 1) ∧ 0 <= y ∧ smeared 32 (wrap32 (x - 1)) y.
Proof.
  unfold round_pow2_32.
  set (x0 := wrap32 (x - 1)).
  assert (0 <= x0) as H0 by (apply Z.mod_pos_bound; lia).
  eexists; split; [reflexivity |]. split.
  - repeat (apply Z.lor_nonneg; split; [| apply Z.shiftr_nonneg]); done.
  - change 32 with (2 * (2 * (2 * (2 * (2 * 1))))).
    do 5 (apply smeared_step; [lia |]). apply smeared_init.
Qed.

Lemma log2_up_bounds x n : 0 <= n → 2 ^ n < x <= 2 ^ (n + 1) → Z.log2_up x = n + 1.
Proof.
  intros Hn Hx. assert (0 < 2 ^ n) by (apply Z.pow_pos_nonneg; lia).
  apply Z.log2_up_unique; [lia |].
  replace (Z.pred (n + 1)) with n by lia. done.
Qed.

(** X2: on its working range [1 ≤ x ≤ 2^63] the 64-bit [round_pow2]
    returns the least power of two that is at least [x]; in particular it
    leaves a power of two as it is. *)
Theorem round_pow2_least (x : Z) :
  1 <= x <= 2 ^ 63 →
  is_pow2 (round_pow2 x)
  ∧ x <= round_pow2 x
  ∧ (∀ k, 0 <= k → x <= 2 ^ k → round_pow2 x <= 2 ^ k)
  ∧ (is_pow2 x → round_pow2 x = x).
Proof.
  intros Hx. rewrite (round_pow2_log2_up x Hx).
  split; [exists (Z.log2_up x); split; [apply Z.log2_up_nonneg | done] |].
  split.
  { destruct (decide (x = 1)) as [-> | Hne]; [done |].
    apply Z.log2_up_spec. lia. }
  split.
  - intros k Hk Hle. apply Z.pow_le_mono_r; [lia |].
    apply Z.log2_up_le_pow2; lia.
  - intros (k & Hk & ->). by rewrite Z.log2_up_pow2.
Qed.

Lemma round_pow2_least_witness :
  is_pow2 (round_pow2 100) ∧ 100 <= round_pow2 100
  ∧ round_pow2 100 <= 2 ^ 7 ∧ round_pow2 4096 = 4096.
Proof.
  destruct (round_pow2_least 100) as (H1 & H2 & H3 & _); [lia |].
  split; [exact H1 |]. split; [exact H2 |].
  split; [apply H3; lia | reflexivity].
Defined.

(** X3: outside that range the 64-bit [round_pow2] wraps around to 0: for
    [x = 0], and for every [x] above [2^63], where the next power of two
    is [2^64]. *)
Theorem round_pow2_overflow (x : Z) :
  x = 0 ∨ 2 ^ 63 < x < 2 ^ 64 → round_pow2 x = 0.
Proof.
  intros [-> | Hx]; [reflexivity |].
  destruct (round_pow2_smeared x) as (y & -> & Hy0 & Hy).
  assert (wrap (x - 1) = x - 1) as Hw by (apply Z.mod_small; lia).
  rewrite Hw in Hy.
  rewrite (smeared_ones_width 64 (x - 1) y) by (lia || done).
  replace (x - 1 + 1) with x by lia.
  rewrite (log2_up_bounds x 63) by lia.
  reflexivity.
Qed.

Lemma round_pow2_overflow_witness : round_pow2 (2 ^ 63 + 1) = 0.
Proof. apply round_pow2_overflow. right. lia. Defined.

(** X4: the 32-bit [round_pow2] returns the least power of two that is at
    least [x] for [1 ≤ x ≤ 2^31], where it agrees with the 64-bit one, and
    wraps around to 0 for [x = 0] and for [2^31 < x < 2^32]. *)
Theorem round_pow2_32_spec (x : Z) :
  0 <= x < 2 ^ 32 →
  round_pow2_32 x = (if bool_decide (1 <= x <= 2 ^ 31) then 2 ^ Z.log2_up x else 0)
  ∧ (1 <= x <= 2 ^ 31 → round_pow2_32 x = round_pow2 x).
Proof.
  intros Hx.
  assert (round_pow2_32 x
          = if bool_decide (1 <= x <= 2 ^ 31) then 2 ^ Z.log2_up x else 0) as H.
  { destruct (decide (x = 0)) as [-> | Hne]; [reflexivity |].
    destruct (round_pow2_32_smeared x) as (y & -> & Hy0 & Hy).
    assert (wrap32 (x - 1) = x - 1) as Hw by (apply Z.mod_small; lia).
    rewrite Hw in Hy.
    rewrite (smeared_ones_width 32 (x - 1) y) by (lia || done).
    replace (x - 1 + 1) with x by lia.
    rewrite Z.ones_equiv.
    replace (Z.pred (2 ^ Z.log2_up x) + 1) with (2 ^ Z.log2_up x) by lia.
    case_bool_decide as Hr.
    - apply Z.mod_small.
      pose proof (Z.log2_up_nonneg x).
      assert (Z.log2_up x <= 31).
      { change 31 with (Z.log2_up (2 ^ 31)). apply Z.log2_up_le_mono. lia. }
      split; [lia |]. apply Z.pow_lt_mono_r; lia.
    - rewrite (log2_up_bounds x 31) by lia. reflexivity. }
  split; [done |].
  intros Hr. rewrite H, bool_decide_true by done.
  symmetry. apply round_pow2_log2_up. lia.
Qed.

Lemma round_pow2_32_spec_witness :
  round_pow2_32 100 = 128 ∧ round_pow2_32 (2 ^ 31 + 1) = 0.
Proof.
  destruct (round_pow2_32_spec 100) as [H _]; [lia |].
  destruct (round_pow2_32_spec (2 ^ 31 + 1)) as [H' _]; [lia |].
  split; [reflexivity | exact H'].
Defined.
